(** * Cluster creation (pkg/internal/cluster/create/create.go)

    A shallow embedding of [create.Cluster] and [create.fixupOptions]:
    the orchestration of options normalization, name validation,
    provisioning, the bootstrap actions, compensation and reporting.

    Collaborators of other packages (configuration loading and defaulting,
    the provider, the actions, cluster deletion, kubeconfig export, the
    logger) are an interface, [Externals]; every call to one of them is
    recorded, with its outcome, in the trace of the run. *)

From Stdlib Require Import String Ascii NArith ZArith Lia.
From stdpp Require Import base tactics option list strings.

Local Open Scope string_scope.
Local Open Scope list_scope.
Local Open Scope nat_scope.

(** ** Package regexp: the fragment of the syntax used by [validNameRE] *)

Module regexp.

(** A regular expression; a character class is a list of inclusive byte
    ranges, a single character [c] being the range [c-c]. [BeginText] and
    [EndText] are [^] and [$] without the flag [m]: the begin and the end
    of the text, not of a line. *)
Inductive Regexp : Type :=
| CharClass (ranges : list (ascii * ascii))
| BeginText
| EndText
| Concat (r1 r2 : Regexp)
| Star (r : Regexp)
| Plus (r : Regexp).

Definition inRange (c : ascii) (rg : ascii * ascii) : bool :=
  ((N_of_ascii rg.1 <=? N_of_ascii c) && (N_of_ascii c <=? N_of_ascii rg.2))%N.

Definition inClass (ranges : list (ascii * ascii)) (c : ascii) : bool :=
  existsb (inRange c) ranges.

(** Zero or more repetitions of [step] from position [i]; a repetition
    that consumes nothing is dropped, so [fuel] bounds the number of
    characters consumed. *)
Fixpoint iter (step : nat → list nat) (fuel : nat) (i : nat) : list nat :=
  match fuel with
  | 0 => [i]
  | S n => i :: (filter (λ j, i < j) (step i) ≫= iter step n)
  end.

(** [ends text r i]: every position [j] such that [r] matches
    [text[i..j)]. The anchors look at the position in the whole text. *)
Fixpoint ends (text : list ascii) (r : Regexp) (i : nat) : list nat :=
  match r with
  | CharClass ranges =>
      match text !! i with
      | Some c => if inClass ranges c then [S i] else []
      | None => []
      end
  | BeginText => if decide (i = 0) then [i] else []
  | EndText => if decide (i = length text) then [i] else []
  | Concat r1 r2 => ends text r1 i ≫= ends text r2
  | Star r => iter (ends text r) (length text) i
  | Plus r => ends text r i ≫= iter (ends text r) (length text)
  end.

(** [re.MatchString(s)]: whether [s] contains any match of [re]. The text
    is taken byte by byte: a byte above 127 is in no range of ASCII
    characters, and neither is the rune that it is part of. *)
Definition MatchString (re : Regexp) (s : string) : bool :=
  let text := list_ascii_of_string s in
  existsb (λ i, bool_decide (ends text re i ≠ [])) (seq 0 (S (length text))).

End regexp.

(** ** Package config: the cluster specification *)

Module config.

(** Modelled from the spec: the declaration of [config.Node] is in
    another package; a node entry has a role and an image. *)
Record Node : Type := { Role : string; Image : string }.

(** Modelled from the spec: the declaration of [config.Networking] is in
    another package; of its toggles the code reads [DisableDefaultCNI]. *)
Record NetworkingCfg : Type := { DisableDefaultCNI : bool }.

(** Modelled from the spec: the declaration of [config.Cluster] is in
    another package; the code reads [Nodes] and [Networking]. *)
Record Cluster : Type := { Nodes : list Node; Networking : NetworkingCfg }.

End config.

(** ** Package create *)

Module create.
Import regexp.

(** A Go [error] value, identified by its message. *)
Definition error : Type := string.

Definition clusterNameMax : nat := 50.

(** The text of the pattern, as [validNameRE.String()] returns it. *)
Definition validNamePattern : string := "^[a-zA-Z0-9_.-]+$".

(** [regexp.MustCompile(validNamePattern)] *)
Definition validNameRE : Regexp :=
  Concat BeginText
    (Concat
       (Plus (CharClass [("a", "z"); ("A", "Z"); ("0", "9");
                         ("_", "_"); (".", "."); ("-", "-")]%char))
       EndText).

Record ClusterOptions : Type := {
  Config : option config.Cluster;      (* *config.Cluster, nil is None *)
  NodeImage : string;
  Retain : bool;
  WaitForReady : Z;                    (* time.Duration *)
  KubeconfigPath : string;
  StopBeforeSettingUpKubernetes : bool;
  DisplayUsage : bool;
  DisplaySalutation : bool;
}.

(** The values of [actions.Action] that the packages' [NewAction]
    functions build. *)
Inductive Action : Type :=
| loadbalancer
| configaction
| kubeadminit
| installcni
| installstorage
| kubeadmjoin
| waitforready (waitTime : Z).

#[export] Instance Action_eq_dec : EqDecision Action.
Proof. solve_decision. Defined.

(** What a call returns: an error or nil; [Panic] is a nil dereference. *)
Inductive outcome : Type :=
| Return (err : option error)
| Panic.

(** The calls a run makes, each with what it returned. *)
Inductive Call : Type :=
| CallLoad (path : string) (err : option error)
| CallSetDefaultsCluster
| CallMatchString (name : string) (ok : bool)
| CallWarnf (name : string)
| CallValidate (err : option error)
| CallProvision (name : string) (err : option error)
| CallErrorf (e : error)
| CallDelete (name path : string) (err : option error)
| CallExecute (action : Action) (err : option error)
| CallExport (name path : string) (err : option error)
| CallLogUsage (name path : string)
| CallInfo (msg : string)
| CallLogSalutation.

#[export] Instance Call_eq_dec : EqDecision Call.
Proof. solve_decision. Defined.

(** The collaborators. [World] is whatever they read and change (files,
    containers, the nodes); the functions on a specification held in
    memory do not touch it. *)
Class Externals : Type := {
  World : Type;
  encoding_Load : string → World → (error + config.Cluster) * World;
  SetDefaultsCluster : config.Cluster → config.Cluster;
  Validate : config.Cluster → option error;
  Provision : string → config.Cluster → World → option error * World;
  delete_Cluster : string → string → World → option error * World;
  Execute : Action → config.Cluster → string → World → option error * World;
  kubeconfig_Export : string → string → World → option error * World;
}.

Section Run.
Context `{Ext : Externals}.

(** A computation changes the world and emits the calls it made. *)
Definition M (A : Type) : Type := World → A * World * list Call.

#[export] Instance M_ret : MRet M := λ A a w, (a, w, []).

#[export] Instance M_bind : MBind M := λ A B f m w,
  let '(a, w1, t1) := m w in
  let '(b, w2, t2) := f a w1 in
  (b, w2, t1 ++ t2).

(** A call to a collaborator that acts on the world. *)
Definition call {A} (f : World → A * World) (ev : A → Call) : M A :=
  λ w, let '(a, w') := f w in (a, w', [ev a]).

(** A call that only computes or logs. *)
Definition pure {A} (a : A) (ev : Call) : M A := λ w, (a, w, [ev]).

Definition errOf {A} (r : error + A) : option error :=
  match r with inl e => Some e | inr _ => None end.

Definition setImage (img : string) (n : config.Node) : config.Node :=
  {| config.Role := config.Role n; config.Image := img |}.

(** [for i := range nodes { nodes[i].Image = img }] *)
Definition overrideImages (img : string) (nodes : list config.Node)
  : list config.Node :=
  foldl (λ ns i, alter (setImage img) i ns) nodes (seq 0 (length nodes)).

Definition setNodes (cfg : config.Cluster) (nodes : list config.Node)
  : config.Cluster :=
  {| config.Nodes := nodes; config.Networking := config.Networking cfg |}.

Definition setConfig (opts : ClusterOptions) (cfg : config.Cluster)
  : ClusterOptions :=
  {| Config := Some cfg;
     NodeImage := NodeImage opts;
     Retain := Retain opts;
     WaitForReady := WaitForReady opts;
     KubeconfigPath := KubeconfigPath opts;
     StopBeforeSettingUpKubernetes := StopBeforeSettingUpKubernetes opts;
     DisplayUsage := DisplayUsage opts;
     DisplaySalutation := DisplaySalutation opts |}.

(** [fixupOptions] writes through [opts] and through [opts.Config]; the
    options it leaves behind are returned with the error. *)
Definition fixupOptions (opts : ClusterOptions)
  : M (option error * ClusterOptions) :=
  loaded ← match Config opts with
           | None => call (encoding_Load "") (λ r, CallLoad "" (errOf r))
           | Some cfg => mret (inr cfg)
           end;
  match loaded with
  | inl err => mret (Some err, opts)
  | inr cfg =>
      let cfg :=
        if decide (NodeImage opts ≠ "")
        then setNodes cfg (overrideImages (NodeImage opts) (config.Nodes cfg))
        else cfg in
      cfg ← pure (SetDefaultsCluster cfg) CallSetDefaultsCluster;
      mret (None, setConfig opts cfg)
  end.

Definition invalidNameError (name : string) : error :=
  "'" +:+ name +:+
  "' is not a valid cluster name, cluster names must match `" +:+
  validNamePattern +:+ "`".

(** [delete.Cluster] unless [opts.Retain]; its error is dropped. *)
Definition cleanup (name : string) (opts : ClusterOptions) : M unit :=
  if Retain opts then mret ()
  else
    _ ← call (delete_Cluster name (KubeconfigPath opts))
             (CallDelete name (KubeconfigPath opts));
    mret ().

(** The slice [actionsToRun] that [Cluster] builds. *)
Definition actionsToRun (opts : ClusterOptions) (cfg : config.Cluster)
  : list Action :=
  let actionsToRun := [loadbalancer; configaction] in
  if StopBeforeSettingUpKubernetes opts then actionsToRun
  else
    let actionsToRun := actionsToRun ++ [kubeadminit] in
    let actionsToRun :=
      if config.DisableDefaultCNI (config.Networking cfg) then actionsToRun
      else actionsToRun ++ [installcni] in
    actionsToRun ++
      [installstorage; kubeadmjoin; waitforready (WaitForReady opts)].

(** [for _, action := range actionsToRun { ... }]: the error of the
    first action that fails, after the cleanup. *)
Fixpoint runActions (name : string) (opts : ClusterOptions)
    (cfg : config.Cluster) (acts : list Action) : M (option error) :=
  match acts with
  | [] => mret None
  | action :: rest =>
      err ← call (Execute action cfg name) (CallExecute action);
      match err with
      | Some e => _ ← cleanup name opts; mret (Some e)
      | None => runActions name opts cfg rest
      end
  end.

(** [Cluster(logger, ctx, opts)], with [name] for [ctx.Name()]. The status
    object and the action context are built without a call to a
    collaborator; [logUsage] and [logSalutation] are one call each, what
    they print is left out. *)
Definition Cluster (name : string) (opts : ClusterOptions)
  : M (outcome * ClusterOptions) :=
  '(err, opts) ← fixupOptions opts;
  res ← match err with
        | Some e => mret (Return (Some e))
        | None =>
  ok ← pure (MatchString validNameRE name)
            (CallMatchString name (MatchString validNameRE name));
  if negb ok then mret (Return (Some (invalidNameError name)))
  else
  _ ← (if decide (clusterNameMax < String.length name)
       then pure () (CallWarnf name) else mret ());
  match Config opts with
  | None => mret Panic
  | Some cfg =>
  verr ← pure (Validate cfg) (CallValidate (Validate cfg));
  match verr with
  | Some e => mret (Return (Some e))
  | None =>
  perr ← call (Provision name cfg) (CallProvision name);
  match perr with
  | Some e =>
      _ ← pure () (CallErrorf e);
      _ ← cleanup name opts;
      mret (Return (Some e))
  | None =>
  aerr ← runActions name opts cfg (actionsToRun opts cfg);
  match aerr with
  | Some e => mret (Return (Some e))
  | None =>
  if StopBeforeSettingUpKubernetes opts then mret (Return None)
  else
  xerr ← call (kubeconfig_Export name (KubeconfigPath opts))
              (CallExport name (KubeconfigPath opts));
  match xerr with
  | Some e => mret (Return (Some e))
  | None =>
  _ ← (if DisplayUsage opts
       then pure () (CallLogUsage name (KubeconfigPath opts))
       else mret ());
  _ ← (if DisplaySalutation opts
       then _ ← pure () (CallInfo ""); pure () CallLogSalutation
       else mret ());
  mret (Return None)
  end end end end end end;
  mret (res, opts).

End Run.

(** *** What a run returned and which calls it made *)

Definition outcomeOf {A W} (run : A * ClusterOptions * W * list Call)
  : A := run.1.1.1.

Definition optionsAfter {A W} (run : A * ClusterOptions * W * list Call)
  : ClusterOptions := run.1.1.2.

Definition trace {A W} (run : A * W * list Call) : list Call := run.2.

(** The specification that normalization works on: the caller's, or the
    one loaded for a caller that gave none. *)
Definition specification `{Ext : Externals} (opts : ClusterOptions)
    (w : World) : option config.Cluster :=
  match Config opts with
  | Some cfg => Some cfg
  | None => match (encoding_Load "" w).1 with
            | inr cfg => Some cfg
            | inl _ => None
            end
  end.

Definition isNormalization (c : Call) : bool :=
  match c with CallLoad _ _ | CallSetDefaultsCluster => true | _ => false end.

Definition isNameCheck (c : Call) : bool :=
  match c with CallMatchString _ _ => true | _ => false end.

(** The actions executed, in order, each with its result. *)
Definition executed (tr : list Call) : list (Action * option error) :=
  omap (λ c, match c with CallExecute a r => Some (a, r) | _ => None end) tr.

(** The results of the calls of [delete.Cluster]. *)
Definition deletions (tr : list Call) : list (option error) :=
  omap (λ c, match c with CallDelete _ _ r => Some r | _ => None end) tr.

Definition provisions (tr : list Call) : list (option error) :=
  omap (λ c, match c with CallProvision _ r => Some r | _ => None end) tr.

Definition exports (tr : list Call) : list (option error) :=
  omap (λ c, match c with CallExport _ _ r => Some r | _ => None end) tr.

Definition isReport (c : Call) : bool :=
  match c with
  | CallLogUsage _ _ | CallInfo _ | CallLogSalutation => true
  | _ => false
  end.

(** The usage and salutation output. *)
Definition reports (tr : list Call) : list Call :=
  filter (λ c, isReport c = true) tr.

(** *** The paths through [Cluster] *)

Definition loadCalls (opts : ClusterOptions) : list Call :=
  match Config opts with None => [CallLoad "" None] | Some _ => [] end.

Definition warnCalls (name : string) : list Call :=
  if decide (clusterNameMax < String.length name) then [CallWarnf name] else [].

Definition cleanupCalls (name : string) (opts : ClusterOptions)
    (r : option error) : list Call :=
  if Retain opts then [] else [CallDelete name (KubeconfigPath opts) r].

Definition okCalls (acts : list Action) : list Call :=
  (λ a, CallExecute a None) <$> acts.

Definition reportCalls (name : string) (opts : ClusterOptions) : list Call :=
  (if DisplayUsage opts then [CallLogUsage name (KubeconfigPath opts)] else [])
  ++ (if DisplaySalutation opts then [CallInfo ""; CallLogSalutation] else []).

(** Up to the name check, when the name is accepted. *)
Definition entryCalls (name : string) (opts : ClusterOptions) : list Call :=
  loadCalls opts ++ [CallSetDefaultsCluster; CallMatchString name true]
  ++ warnCalls name.

(** Up to the provisioning, when it succeeds. *)
Definition provisionedCalls (name : string) (opts : ClusterOptions)
  : list Call :=
  entryCalls name opts ++ [CallValidate None; CallProvision name None].

(** Normalization sets [Config] and nothing else. *)
Definition fixedUp (opts opts' : ClusterOptions) (cfg : config.Cluster)
  : Prop :=
  Config opts' = Some cfg ∧
  NodeImage opts' = NodeImage opts ∧
  Retain opts' = Retain opts ∧
  WaitForReady opts' = WaitForReady opts ∧
  KubeconfigPath opts' = KubeconfigPath opts ∧
  StopBeforeSettingUpKubernetes opts' = StopBeforeSettingUpKubernetes opts ∧
  DisplayUsage opts' = DisplayUsage opts ∧
  DisplaySalutation opts' = DisplaySalutation opts.

(** [Run name opts out opts' tr]: a call of [Cluster] with [opts] may
    return [out], leaving the options [opts'], after the calls [tr]. *)
Inductive Run (name : string) (opts : ClusterOptions)
  : outcome → ClusterOptions → list Call → Prop :=
| RunLoadFailed e :
    Config opts = None →
    Run name opts (Return (Some e)) opts [CallLoad "" (Some e)]
| RunBadName opts' cfg :
    fixedUp opts opts' cfg →
    MatchString validNameRE name = false →
    Run name opts (Return (Some (invalidNameError name))) opts'
      (loadCalls opts ++ [CallSetDefaultsCluster; CallMatchString name false])
| RunInvalidConfig opts' cfg e :
    fixedUp opts opts' cfg →
    MatchString validNameRE name = true →
    Run name opts (Return (Some e)) opts'
      (entryCalls name opts ++ [CallValidate (Some e)])
| RunProvisionFailed opts' cfg e r :
    fixedUp opts opts' cfg →
    MatchString validNameRE name = true →
    Run name opts (Return (Some e)) opts'
      (entryCalls name opts
       ++ [CallValidate None; CallProvision name (Some e); CallErrorf e]
       ++ cleanupCalls name opts r)
| RunActionFailed opts' cfg k a e r :
    fixedUp opts opts' cfg →
    MatchString validNameRE name = true →
    actionsToRun opts' cfg !! k = Some a →
    Run name opts (Return (Some e)) opts'
      (provisionedCalls name opts
       ++ okCalls (take k (actionsToRun opts' cfg))
       ++ [CallExecute a (Some e)] ++ cleanupCalls name opts r)
| RunStopped opts' cfg :
    fixedUp opts opts' cfg →
    MatchString validNameRE name = true →
    StopBeforeSettingUpKubernetes opts = true →
    Run name opts (Return None) opts'
      (provisionedCalls name opts ++ okCalls (actionsToRun opts' cfg))
| RunExportFailed opts' cfg e :
    fixedUp opts opts' cfg →
    MatchString validNameRE name = true →
    StopBeforeSettingUpKubernetes opts = false →
    Run name opts (Return (Some e)) opts'
      (provisionedCalls name opts ++ okCalls (actionsToRun opts' cfg)
       ++ [CallExport name (KubeconfigPath opts) (Some e)])
| RunCompleted opts' cfg :
    fixedUp opts opts' cfg →
    MatchString validNameRE name = true →
    StopBeforeSettingUpKubernetes opts = false →
    Run name opts (Return None) opts'
      (provisionedCalls name opts ++ okCalls (actionsToRun opts' cfg)
       ++ [CallExport name (KubeconfigPath opts) None]
       ++ reportCalls name opts).

(** *** The specification's words *)

(** A letter, a digit, an underscore, a dot or a dash. *)
Definition nameChar (c : ascii) : bool :=
  let n := N_of_ascii c in
  ((65 <=? n) && (n <=? 90) || (97 <=? n) && (n <=? 122)
   || (48 <=? n) && (n <=? 57)
   || (n =? 95) || (n =? 46) || (n =? 45))%N.

(** The whole name matches the format rule: it is not empty and made of
    such characters only. *)
Definition fullyMatches (name : string) : Prop :=
  name ≠ "" ∧ Forall (λ c, nameChar c = true) (list_ascii_of_string name).


(** The assembly algorithm of the specification. *)
Definition specSteps (stopBeforeBootstrap disableDefaultCNI : bool)
    (waitDuration : Z) : list Action :=
  [loadbalancer; configaction]
  ++ (if negb stopBeforeBootstrap
      then [kubeadminit]
           ++ (if negb disableDefaultCNI then [installcni] else [])
           ++ [installstorage; kubeadmjoin; waitforready waitDuration]
      else []).

(** Validation first: every normalization call comes after a check of
    the name. *)
Definition validatesFirst (tr : list Call) : Prop :=
  ∀ i c, tr !! i = Some c → isNormalization c = true →
    ∃ j c', j < i ∧ tr !! j = Some c' ∧ isNameCheck c' = true.

(** Modelled from the spec: [config.SetDefaultsCluster] is in another
    package; default-value computation fills unset fields, so a
    specification that has node entries keeps them, and a node that has
    an image keeps it. *)
Definition fillsUnsetFields (defaults : config.Cluster → config.Cluster)
  : Prop :=
  ∀ cfg, config.Nodes cfg ≠ [] →
    Forall2 (λ n n', config.Image n ≠ "" → config.Image n' = config.Image n)
            (config.Nodes cfg) (config.Nodes (defaults cfg)).

(** *** A scripted world, for running the model on examples *)

Record Script : Type := {
  loadResult : error + config.Cluster;
  validateResult : option error;
  provisionResult : option error;
  deleteResult : option error;
  executeResult : Action → option error;
  exportResult : option error;
}.

Definition defaultImage : string := "kindest/node:default".

(** A defaulting function for the examples: a specification without
    nodes gets one control-plane node, a node without an image the
    default image. *)
Definition exampleDefaults (cfg : config.Cluster) : config.Cluster :=
  let nodes :=
    match config.Nodes cfg with
    | [] => [ {| config.Role := "control-plane"; config.Image := "" |} ]
    | ns => ns
    end in
  {| config.Nodes :=
       (λ n, if decide (config.Image n = "")
             then {| config.Role := config.Role n;
                     config.Image := defaultImage |}
             else n) <$> nodes;
     config.Networking := config.Networking cfg |}.

Definition scripted (s : Script) : Externals := {|
  World := unit;
  encoding_Load := λ _ w, (loadResult s, w);
  SetDefaultsCluster := exampleDefaults;
  Validate := λ _, validateResult s;
  Provision := λ _ _ w, (provisionResult s, w);
  delete_Cluster := λ _ _ w, (deleteResult s, w);
  Execute := λ a _ _ w, (executeResult s a, w);
  kubeconfig_Export := λ _ _ w, (exportResult s, w);
|}.

Definition node (img : string) : config.Node :=
  {| config.Role := "worker"; config.Image := img |}.

Definition exampleSpec : config.Cluster :=
  {| config.Nodes := [node "a:1"; node ""; node "c:3"];
     config.Networking := {| config.DisableDefaultCNI := false |} |}.

Definition allGood : Script := {|
  loadResult := inr exampleSpec;
  validateResult := None;
  provisionResult := None;
  deleteResult := None;
  executeResult := λ _, None;
  exportResult := None;
|}.

Definition exampleOpts : ClusterOptions := {|
  Config := None;
  NodeImage := "";
  Retain := false;
  WaitForReady := 0;
  KubeconfigPath := "";
  StopBeforeSettingUpKubernetes := false;
  DisplayUsage := true;
  DisplaySalutation := true;
|}.

Definition provisionFails : Script := {|
  loadResult := inr exampleSpec;
  validateResult := None;
  provisionResult := Some "provision failed";
  deleteResult := Some "delete failed";
  executeResult := λ _, None;
  exportResult := None;
|}.

Definition initFails : Script := {|
  loadResult := inr exampleSpec;
  validateResult := None;
  provisionResult := None;
  deleteResult := Some "delete failed";
  executeResult := λ a, if decide (a = kubeadminit)
                        then Some "kubeadm init failed" else None;
  exportResult := None;
|}.

Definition exportFails : Script := {|
  loadResult := inr exampleSpec;
  validateResult := None;
  provisionResult := None;
  deleteResult := None;
  executeResult := λ _, None;
  exportResult := Some "export failed";
|}.


(** The caller's own three-node specification and an image override. *)
Definition overrideOpts : ClusterOptions := {|
  Config := Some exampleSpec;
  NodeImage := "custom:tag";
  Retain := false;
  WaitForReady := 0;
  KubeconfigPath := "";
  StopBeforeSettingUpKubernetes := false;
  DisplayUsage := false;
  DisplaySalutation := false;
|}.

(** *** The rest of the file *)

(** The messages of [logSalutation]. *)
Definition salutations : list string :=
  ["Have a nice day! 👋";
   "Thanks for using kind! 😊";
   "Not sure what to do next? 😅 Check out https://kind.sigs.k8s.io/docs/user/quick-start/";
   "Have a question, bug, or feature request? Let us know! https://kind.sigs.k8s.io/#community 🙂"].

(** [logSalutation(logger)]: the call of [logger.V(0).Info] that it makes.
    [Intn] is [r.Intn], the source seeded with the time; it returns a number
    below its argument. [None] is an index out of range. *)
Definition logSalutation (Intn : nat → nat) : option Call :=
  s ← salutations !! Intn (length salutations); Some (CallInfo s).

(** A specification that does not validate. *)
Definition validateFails : Script := {|
  loadResult := inr exampleSpec;
  validateResult := Some "invalid configuration";
  provisionResult := None;
  deleteResult := None;
  executeResult := λ _, None;
  exportResult := None;
|}.

(** The comment on [clusterNameMax]: the suffix of the control plane
    container and the typical limit of a host name. *)
Definition controlPlaneSuffix : string := "-control-plane".

Definition hostNameMax : nat := 64.

(** The results of the calls of [opts.Config.Validate]. *)
Definition validations (tr : list Call) : list (option error) :=
  omap (λ c, match c with CallValidate r => Some r | _ => None end) tr.

(** The names that [logger.Warnf] was called with. *)
Definition warnings (tr : list Call) : list string :=
  omap (λ c, match c with CallWarnf n => Some n | _ => None end) tr.

(** The calls of [encoding.Load]: the path and the result. *)
Definition loads (tr : list Call) : list (string * option error) :=
  omap (λ c, match c with CallLoad p r => Some (p, r) | _ => None end) tr.

(** The errors that [logger.Errorf] was called with. *)
Definition errorLogs (tr : list Call) : list error :=
  omap (λ c, match c with CallErrorf e => Some e | _ => None end) tr.

(** The results of the checks of the name. *)
Definition nameChecks (tr : list Call) : list (string * bool) :=
  omap (λ c, match c with CallMatchString n b => Some (n, b) | _ => None end) tr.

End create.

Import regexp create.

(** ** Matching a pattern [^[...]+$] *)

Section class_runs.
Context (text : list ascii) (ranges : list (ascii * ascii)).

(** A class consumes one character of the class. *)
Lemma ends_CharClass i j :
  j ∈ ends text (CharClass ranges) i ↔
  j = S i ∧ ∃ c, text !! i = Some c ∧ inClass ranges c = true.
Proof.
  simpl. destruct (text !! i) as [c|] eqn:Hc.
  - destruct (inClass ranges c) eqn:Hin.
    + rewrite list_elem_of_singleton. split; [intros ->; eauto|tauto].
    + rewrite elem_of_nil. split; [done|]. intros (_ & c' & [= <-] & ?). congruence.
  - rewrite elem_of_nil. split; [done|]. by intros (_ & c' & [=] & ?).
Qed.

(** Repetitions of a class from [i] end wherever a run of at most [n]
    characters of the class ends. *)
Lemma iter_CharClass n i j :
  j ∈ iter (ends text (CharClass ranges)) n i ↔
  i ≤ j ≤ i + n ∧
  ∀ k, i ≤ k < j → ∃ c, text !! k = Some c ∧ inClass ranges c = true.
Proof.
  revert i. induction n as [|n IH]; intros i.
  - cbn [iter]. rewrite list_elem_of_singleton. split.
    + intros ->. split; [lia|]. intros k ?; lia.
    + intros [? _]. lia.
  - cbn [iter]. rewrite elem_of_cons, list_elem_of_bind. split.
    + intros [->|(m & Hj & Hm)].
      * split; [lia|]. intros k ?; lia.
      * apply list_elem_of_filter in Hm as [_ Hm].
        apply ends_CharClass in Hm as [-> Hi].
        apply IH in Hj as [? Hrun]. split; [lia|].
        intros k Hk. destruct (decide (k = i)) as [->|]; [done|].
        apply Hrun. lia.
    + intros [Hij Hrun]. destruct (decide (j = i)) as [|Hne]; [by left|].
      right. exists (S i). split.
      * apply IH. split; [lia|]. intros k ?. apply Hrun. lia.
      * apply list_elem_of_filter. split; [lia|].
        apply ends_CharClass. split; [done|]. apply Hrun. lia.
Qed.

(** The length of the text is fuel enough for every run in it. *)
Lemma ends_Plus_CharClass i j :
  j ∈ ends text (Plus (CharClass ranges)) i ↔
  i < j ≤ S i + length text ∧
  ∀ k, i ≤ k < j → ∃ c, text !! k = Some c ∧ inClass ranges c = true.
Proof.
  cbn [ends]. rewrite list_elem_of_bind. split.
  - intros (m & Hj & Hm). apply ends_CharClass in Hm as [-> Hi].
    apply iter_CharClass in Hj as [? Hrun]. split; [lia|].
    intros k Hk. destruct (decide (k = i)) as [->|]; [done|].
    apply Hrun. lia.
  - intros [Hij Hrun]. exists (S i). split.
    + apply iter_CharClass. split; [lia|]. intros k ?. apply Hrun. lia.
    + apply ends_CharClass. split; [done|]. apply Hrun. lia.
Qed.

(** A pattern [^[...]+$] matches at position 0 only, and the whole text. *)
Lemma ends_anchored_class i j :
  j ∈ ends text (Concat BeginText (Concat (Plus (CharClass ranges)) EndText)) i ↔
  i = 0 ∧ j = length text ∧ text ≠ [] ∧
  Forall (λ c, inClass ranges c = true) text.
Proof.
  cbn [ends]. rewrite list_elem_of_bind. split.
  - intros (m & Hj & Hm). case_decide as Hi; [|by apply elem_of_nil in Hm].
    apply list_elem_of_singleton in Hm as ->. subst i.
    apply list_elem_of_bind in Hj as (m & Hj & Hm).
    case_decide as Hlen; [|by apply elem_of_nil in Hj].
    apply list_elem_of_singleton in Hj as ->. subst m.
    change (length text ∈ ends text (Plus (CharClass ranges)) 0) in Hm.
    apply ends_Plus_CharClass in Hm as [Hpos Hrun].
    split_and!; [done|done|by intros ->; simpl in Hpos; lia|].
    apply Forall_lookup. intros k c Hk.
    destruct (Hrun k) as (c' & Hk' & Hin).
    { split; [lia|]. by eapply lookup_lt_Some. }
    congruence.
  - intros (-> & -> & Hne & Hall). exists 0. split.
    + apply list_elem_of_bind. exists (length text). split.
      * rewrite decide_True by done. by apply list_elem_of_singleton.
      * change (length text ∈ ends text (Plus (CharClass ranges)) 0).
        apply ends_Plus_CharClass. split.
        -- destruct text; [done|simpl; lia].
        -- intros k Hk. destruct (lookup_lt_is_Some_2 text k) as [c Hc]; [lia|].
           exists c. split; [done|].
           by eapply (proj1 (Forall_lookup _ _) Hall).
    + rewrite decide_True by done. by apply list_elem_of_singleton.
Qed.
End class_runs.

(** What [MatchString] answers for such a pattern. *)
Lemma MatchString_anchored_class ranges s :
  MatchString (Concat BeginText (Concat (Plus (CharClass ranges)) EndText)) s = true ↔
  s ≠ ""%string ∧ Forall (λ c, inClass ranges c = true) (list_ascii_of_string s).
Proof.
  unfold MatchString. cbv zeta. rewrite existsb_exists. split.
  - intros (i & _ & Hi). apply bool_decide_eq_true in Hi.
    destruct (ends _ _ i) as [|j l] eqn:Hends; [done|].
    assert (Hj : j ∈ ends (list_ascii_of_string s)
              (Concat BeginText (Concat (Plus (CharClass ranges)) EndText)) i)
      by (rewrite Hends; left).
    apply ends_anchored_class in Hj as (_ & _ & Hne & Hall).
    split; [|done]. intros ->. by apply Hne.
  - intros [Hne Hall]. exists 0. split.
    + apply in_seq. lia.
    + apply bool_decide_eq_true. intros Hnil.
      assert (Hj : length (list_ascii_of_string s) ∈ ends (list_ascii_of_string s)
              (Concat BeginText (Concat (Plus (CharClass ranges)) EndText)) 0).
      { apply ends_anchored_class. split_and!; [done|done| |done].
        destruct s; [done|discriminate]. }
      rewrite Hnil in Hj. by apply elem_of_nil in Hj.
Qed.

(** ** Every run of [Cluster] follows one of the paths *)

Ltac unfold_M :=
  unfold mbind, M_bind, mret, M_ret, call, pure in *.

Ltac solve_calls :=
  unfold provisionedCalls, entryCalls, warnCalls;
  repeat case_decide; try done;
  rewrite <- ?app_assoc, ?app_nil_r; simpl;
  rewrite <- ?app_assoc, ?app_nil_r; try reflexivity.

Section paths.
Context `{Ext : Externals}.

(** The calls of the cleanup. *)
Lemma cleanup_calls name opts w :
  ∃ r w', cleanup name opts w = ((), w', cleanupCalls name opts r).
Proof.
  unfold cleanup, cleanupCalls. destruct (Retain opts).
  - by exists None, w.
  - unfold_M. destruct (delete_Cluster _ _ w) as [r w']. by exists r, w'.
Qed.

(** The loop runs the actions in order and stops at the first failure. *)
Lemma runActions_calls name opts cfg acts w :
  match runActions name opts cfg acts w with
  | (None, _, tr) => tr = okCalls acts
  | (Some e, _, tr) =>
      ∃ k a r, acts !! k = Some a ∧
        tr = okCalls (take k acts) ++ [CallExecute a (Some e)]
             ++ cleanupCalls name opts r
  end.
Proof.
  revert w. induction acts as [|a acts IH]; intros w; [done|].
  cbn [runActions]. unfold_M.
  destruct (Execute a cfg name w) as [[e|] w1].
  - destruct (cleanup_calls name opts w1) as (r & w2 & ->).
    exists 0, a, r. by rewrite app_nil_r.
  - specialize (IH w1).
    destruct (runActions name opts cfg acts w1) as [[[e|] w2] tr].
    + destruct IH as (k & b & r & Hk & ->). by exists (S k), b, r.
    + by subst tr.
Qed.

(** Normalization fails only when the load does; otherwise it sets
    [Config] and nothing else. *)
Lemma fixupOptions_calls opts w :
  match fixupOptions opts w with
  | (Some e, opts', _, tr) =>
      Config opts = None ∧ opts' = opts ∧ tr = [CallLoad "" (Some e)]
  | (None, opts', _, tr) =>
      (∃ cfg, fixedUp opts opts' cfg) ∧
      tr = loadCalls opts ++ [CallSetDefaultsCluster]
  end.
Proof.
  unfold fixupOptions, loadCalls, fixedUp. unfold_M.
  destruct (Config opts) as [cfg|].
  - split; [|done]. by eexists.
  - destruct (encoding_Load "" w) as [[e|cfg] w1]; [done|].
    split; [|done]. by eexists.
Qed.

Lemma Run_calls name opts out opts' tr tr' :
  Run name opts out opts' tr → tr = tr' → Run name opts out opts' tr'.
Proof. by intros ? <-. Qed.

Lemma cleanupCalls_fixedUp name opts opts' cfg r :
  fixedUp opts opts' cfg → cleanupCalls name opts' r = cleanupCalls name opts r.
Proof.
  intros (_ & _ & Hret & _ & Hpath & _). unfold cleanupCalls.
  by rewrite Hret, Hpath.
Qed.

(** Soundness of the paths: whatever the collaborators do, a call of
    [Cluster] follows one of them; in particular it never panics. *)
Lemma Cluster_Run_eq name opts w out opts' w' tr :
  Cluster name opts w = (out, opts', w', tr) → Run name opts out opts' tr.
Proof.
  unfold Cluster. unfold_M.
  pose proof (fixupOptions_calls opts w) as Hfix.
  destruct (fixupOptions opts w) as [[[[e|] opts1] w1] pre].
  { destruct Hfix as (Hnil & -> & ->). intros [= <- <- <- <-]. by constructor. }
  destruct Hfix as [[cfg Hfixed] ->].
  assert (Hfl := Hfixed).
  destruct Hfl as (Hcfg & _ & Hret & _ & Hpath & Hstop & Husage & Hsal).
  destruct (MatchString validNameRE name) eqn:Hname; simpl.
  2:{ intros [= <- <- <- <-]. rewrite <- app_assoc. by econstructor. }
  rewrite Hcfg.
  destruct (decide (clusterNameMax < String.length name)) as [Hlong|Hshort];
  (destruct (Validate cfg) as [e|];
   [ intros [= <- <- <- <-]; eapply Run_calls; [by eapply RunInvalidConfig|];
     solve_calls | ];
   destruct (Provision name cfg w1) as [[e|] w2];
   [ destruct (cleanup_calls name opts1 w2) as (r & w3 & ->);
     intros [= <- <- <- <-];
     eapply Run_calls; [by eapply (RunProvisionFailed _ _ _ _ e r)|];
     rewrite (cleanupCalls_fixedUp _ _ _ _ _ Hfixed); solve_calls | ];
   pose proof (runActions_calls name opts1 cfg (actionsToRun opts1 cfg) w2)
     as Hacts;
   destruct (runActions name opts1 cfg (actionsToRun opts1 cfg) w2)
     as [[[e|] w3] tr3];
   [ destruct Hacts as (k & a & r & Hk & ->); intros [= <- <- <- <-];
     eapply Run_calls; [by eapply (RunActionFailed _ _ _ _ k a e r)|];
     rewrite (cleanupCalls_fixedUp _ _ _ _ _ Hfixed); solve_calls | ];
   subst tr3; rewrite Hstop;
   destruct (StopBeforeSettingUpKubernetes opts) eqn:Hs;
   [ intros [= <- <- <- <-]; eapply Run_calls; [by eapply RunStopped|];
     solve_calls | ];
   rewrite Hpath, Husage, Hsal;
   destruct (kubeconfig_Export name (KubeconfigPath opts) w3) as [[e|] w4];
   [ intros [= <- <- <- <-]; eapply Run_calls; [by eapply RunExportFailed|];
     solve_calls | ];
   pose proof (RunCompleted name opts opts1 cfg Hfixed Hname Hs) as Hdone;
   unfold reportCalls in Hdone;
   destruct (DisplayUsage opts), (DisplaySalutation opts);
   intros [= <- <- <- <-]; (eapply Run_calls; [exact Hdone|]); solve_calls).
Qed.

Lemma Cluster_Run name opts w :
  Run name opts (outcomeOf (Cluster name opts w))
    (optionsAfter (Cluster name opts w)) (trace (Cluster name opts w)).
Proof.
  destruct (Cluster name opts w) as [[[out opts'] w'] tr] eqn:Hrun.
  by eapply Cluster_Run_eq.
Qed.
End paths.

(** Case analysis on an innermost scrutinee. *)
Ltac case_inner :=
  match goal with
  | |- context [match ?x with _ => _ end] =>
      lazymatch x with
      | context [match _ with _ => _ end] => fail
      | _ => destruct x
      end
  end.

(** After normalization [Cluster] does not write to the options. *)
Lemma Cluster_optionsAfter `{Ext : Externals} name opts w :
  optionsAfter (Cluster name opts w) = optionsAfter (fixupOptions opts w).
Proof.
  unfold Cluster, optionsAfter. unfold_M.
  destruct (fixupOptions opts w) as [[[err o] w1] t]. simpl.
  repeat case_inner; reflexivity.
Qed.

(** ** The calls of each kind along a path *)

Lemma executed_okCalls acts : executed (okCalls acts) = (λ a, (a, None)) <$> acts.
Proof. unfold executed, okCalls. induction acts; simpl; by f_equal. Qed.

Lemma deletions_okCalls acts : deletions (okCalls acts) = [].
Proof. unfold deletions, okCalls. by induction acts. Qed.

Lemma provisions_okCalls acts : provisions (okCalls acts) = [].
Proof. unfold provisions, okCalls. by induction acts. Qed.

Lemma exports_okCalls acts : exports (okCalls acts) = [].
Proof. unfold exports, okCalls. by induction acts. Qed.

Lemma reports_okCalls acts : reports (okCalls acts) = [].
Proof. unfold reports, okCalls. by induction acts. Qed.

Lemma executed_app l1 l2 : executed (l1 ++ l2) = executed l1 ++ executed l2.
Proof. apply omap_app. Qed.

Lemma deletions_app l1 l2 : deletions (l1 ++ l2) = deletions l1 ++ deletions l2.
Proof. apply omap_app. Qed.

Lemma provisions_app l1 l2 : provisions (l1 ++ l2) = provisions l1 ++ provisions l2.
Proof. apply omap_app. Qed.

Lemma exports_app l1 l2 : exports (l1 ++ l2) = exports l1 ++ exports l2.
Proof. apply omap_app. Qed.

Lemma reports_app l1 l2 : reports (l1 ++ l2) = reports l1 ++ reports l2.
Proof. apply filter_app. Qed.

Create Rewrite HintDb calls.
#[global] Hint Rewrite executed_app deletions_app provisions_app exports_app
  reports_app executed_okCalls deletions_okCalls provisions_okCalls
  exports_okCalls reports_okCalls : calls.

(** Decides membership in a list that is written out. *)
Ltac elem_cases :=
  repeat match goal with
    | H : _ ∈ [] |- _ => by apply elem_of_nil in H
    | H : _ ∈ _ :: _ |- _ => apply elem_of_cons in H as [H|H]
    end;
  simplify_eq.

(** Splits on the options that shape the calls of a path, then computes. *)
Ltac calls_simpl :=
  unfold provisionedCalls, entryCalls, loadCalls, warnCalls, cleanupCalls,
    reportCalls in *;
  repeat case_match; autorewrite with calls in *; simpl in *;
  rewrite ?app_nil_r in *.

Lemma Forall_okCalls (P : Call → Prop) acts :
  (∀ a, P (CallExecute a None)) → Forall P (okCalls acts).
Proof. intros HP. unfold okCalls. apply Forall_fmap, Forall_true. intros a. apply HP. Qed.


Lemma actionsToRun_nonempty opts cfg : actionsToRun opts cfg ≠ [].
Proof.
  unfold actionsToRun.
  by destruct (StopBeforeSettingUpKubernetes opts),
    (config.DisableDefaultCNI (config.Networking cfg)).
Qed.

Lemma actionsToRun_fixedUp opts opts' cfg0 cfg :
  fixedUp opts opts' cfg0 → actionsToRun opts' cfg = actionsToRun opts cfg.
Proof.
  intros (_ & _ & _ & Hwait & _ & Hstop & _). unfold actionsToRun.
  by rewrite Hwait, Hstop.
Qed.

(** ** The order of normalization and validation *)

(** C1, as amended: in every creation call the options normalization runs
    before the validation of the cluster name, not after it. The calls of
    normalization (the load of the default configuration, the default-value
    computation) open the trace; if the load fails the call returns its
    error and the name is never checked; otherwise the default-value
    computation has run, the next call is the check of the name against
    the format rule, and neither a normalization call nor a second check
    follows it. Whatever the name, the options that the call leaves behind
    are the ones that normalization wrote. *)
Theorem C1_normalization_before_validation `{Ext : Externals} name opts w :
  optionsAfter (Cluster name opts w) = optionsAfter (fixupOptions opts w) ∧
  ∃ pre post,
    trace (Cluster name opts w) = pre ++ post ∧
    pre ≠ [] ∧
    Forall (λ c, isNormalization c = true) pre ∧
    match post with
    | [] => ∃ e, pre = [CallLoad "" (Some e)] ∧
                 outcomeOf (Cluster name opts w) = Return (Some e)
    | c :: rest =>
        CallSetDefaultsCluster ∈ pre ∧
        c = CallMatchString name (MatchString validNameRE name) ∧
        Forall (λ c, isNormalization c = false ∧ isNameCheck c = false) rest
    end.
Proof.
  split; [apply Cluster_optionsAfter|].
  destruct (Cluster_Run name opts w)
    as [e0 Hnil|opts' cfg Hfixed Hname|opts' cfg e0 Hfixed Hname
       |opts' cfg e0 r Hfixed Hname
       |opts' cfg k0 a0 e0 r Hfixed Hname Hk|opts' cfg Hfixed Hname _
       |opts' cfg e0 Hfixed Hname _|opts' cfg Hfixed Hname _].
  { exists [CallLoad "" (Some e0)], []. rewrite app_nil_r.
    split_and!; [done|done|by repeat constructor|by exists e0]. }
  all: exists (loadCalls opts ++ [CallSetDefaultsCluster]).
  all: eexists; split;
    [unfold provisionedCalls, entryCalls; rewrite <- ?app_assoc; simpl;
     reflexivity|].
  all: split; [by destruct (loadCalls opts)|].
  all: split; [unfold loadCalls; by destruct (Config opts); repeat constructor|].
  all: split; [apply elem_of_app; right; by left|].
  all: rewrite Hname; split; [done|].
  all: unfold warnCalls, cleanupCalls, reportCalls;
    repeat case_match; simpl;
    repeat match goal with
      | |- Forall _ (_ :: _) => apply Forall_cons_2; [done|]
      | |- Forall _ (_ ++ _) => apply Forall_app_2
      | |- Forall _ [] => apply Forall_nil_2
      | |- Forall _ (okCalls _) => by apply Forall_okCalls
      end.
Qed.

(** A run loads the default configuration and computes the defaults
    before any check of the name. *)
Lemma C1_counterexample :
  ¬ validatesFirst (trace (@Cluster (scripted allGood) "kind" exampleOpts tt)).
Proof.
  intros Hfirst.
  destruct (Hfirst 0 (CallLoad "" None) eq_refl eq_refl) as (j & _ & Hj & _).
  lia.
Qed.

(** ** The assembled pipeline *)

(** C2, as amended: the assembled pipeline has exactly 2 actions when
    [StopBeforeSettingUpKubernetes] is true, exactly 6 when it is false
    and [DisableDefaultCNI] is true, and exactly 7 when both are false. *)
Theorem C2_pipeline_length opts cfg :
  length (actionsToRun opts cfg)
  = if StopBeforeSettingUpKubernetes opts then 2
    else if config.DisableDefaultCNI (config.Networking cfg) then 6 else 7.
Proof.
  unfold actionsToRun.
  destruct (StopBeforeSettingUpKubernetes opts),
    (config.DisableDefaultCNI (config.Networking cfg)); reflexivity.
Qed.

(** With both flags false the pipeline has 7 actions, not 6. *)
Lemma C2_counterexample :
  ¬ (length (actionsToRun exampleOpts exampleSpec)
     = if StopBeforeSettingUpKubernetes exampleOpts then 2
       else if config.DisableDefaultCNI (config.Networking exampleSpec) then 5
            else 6).
Proof. vm_compute. discriminate. Qed.

(** C3: the assembled sequence of actions is the output of the
    specification's algorithm, for every options value and specification. *)
Theorem C3_pipeline_steps opts cfg :
  actionsToRun opts cfg
  = specSteps (StopBeforeSettingUpKubernetes opts)
      (config.DisableDefaultCNI (config.Networking cfg)) (WaitForReady opts).
Proof.
  unfold actionsToRun, specSteps.
  destruct (StopBeforeSettingUpKubernetes opts),
    (config.DisableDefaultCNI (config.Networking cfg)); reflexivity.
Qed.

(** ** Failures and compensation *)





(** ** Completion *)

(** C6: on a run in which every action of the assembled pipeline was
    executed and succeeded: with [StopBeforeSettingUpKubernetes] the call
    returns success and attempts no credential export, no usage and no
    salutation output; without it the credential export is attempted
    exactly once. *)
Theorem C6_completion `{Ext : Externals} name opts w cfg :
  Config (optionsAfter (Cluster name opts w)) = Some cfg →
  executed (trace (Cluster name opts w))
  = (λ a, (a, None)) <$> actionsToRun (optionsAfter (Cluster name opts w)) cfg →
  (StopBeforeSettingUpKubernetes opts = true →
     outcomeOf (Cluster name opts w) = Return None ∧
     exports (trace (Cluster name opts w)) = [] ∧
     reports (trace (Cluster name opts w)) = []) ∧
  (StopBeforeSettingUpKubernetes opts = false →
     length (exports (trace (Cluster name opts w))) = 1).
Proof.
  intros Hcfg Hall.
  destruct (Cluster_Run name opts w)
    as [e Hnil|opts' cfg1 Hfixed|opts' cfg1 e Hfixed|opts' cfg1 e r Hfixed
       |opts' cfg1 k a e r Hfixed Hname Hk|opts' cfg1 Hfixed|opts' cfg1 e Hfixed
       |opts' cfg1 Hfixed].
  1: congruence.
  all: assert (cfg1 = cfg) as -> by (destruct Hfixed as [? _]; congruence).
  all: pose proof (actionsToRun_nonempty opts' cfg) as Hne.
  all: destruct (actionsToRun opts' cfg) as [|a0 acts] eqn:Hacts; [done|].
  1-3: by calls_simpl.
  - exfalso. autorewrite with calls in Hall.
    assert (Hin : (a, Some e) ∈ (λ a, (a, None)) <$> a0 :: acts).
    { rewrite <- Hall. unfold provisionedCalls, entryCalls, loadCalls, warnCalls.
      repeat case_match; simpl; rewrite !elem_of_app; right; left; left. }
    apply list_elem_of_fmap in Hin as (b & [=] & _).
  - split; [|congruence]. intros _. by calls_simpl.
  - split; [congruence|]. intros _. by calls_simpl.
  - split; [congruence|]. intros _. by calls_simpl.
Qed.

Lemma C6_witness :
  (StopBeforeSettingUpKubernetes exampleOpts = true →
     outcomeOf (@Cluster (scripted allGood) "kind" exampleOpts tt) = Return None ∧
     exports (trace (@Cluster (scripted allGood) "kind" exampleOpts tt)) = [] ∧
     reports (trace (@Cluster (scripted allGood) "kind" exampleOpts tt)) = []) ∧
  (StopBeforeSettingUpKubernetes exampleOpts = false →
     length (exports (trace (@Cluster (scripted allGood) "kind" exampleOpts tt))) = 1).
Proof.
  eapply (@C6_completion (scripted allGood) "kind" exampleOpts tt); reflexivity.
Defined.

(** C7: if the credential export fails with [e], which happens only after
    a provisioning and a pipeline that succeeded in full, the call returns
    [e] and the cluster deletion is never invoked. *)
Theorem C7_export_failure `{Ext : Externals} name opts w e :
  Some e ∈ exports (trace (Cluster name opts w)) →
  outcomeOf (Cluster name opts w) = Return (Some e) ∧
  deletions (trace (Cluster name opts w)) = [] ∧
  provisions (trace (Cluster name opts w)) = [None] ∧
  ∃ cfg, Config (optionsAfter (Cluster name opts w)) = Some cfg ∧
    executed (trace (Cluster name opts w))
    = (λ a, (a, None)) <$> actionsToRun (optionsAfter (Cluster name opts w)) cfg.
Proof.
  intros Hfail.
  destruct (Cluster_Run name opts w) as [| | | | | |opts' cfg e' Hfixed|];
    calls_simpl; elem_cases.
  all: split_and!; try done; exists cfg; split; [apply Hfixed|done].
Qed.

Lemma C7_witness :
  outcomeOf (@Cluster (scripted exportFails) "kind" exampleOpts tt)
  = Return (Some "export failed") ∧
  deletions (trace (@Cluster (scripted exportFails) "kind" exampleOpts tt)) = [] ∧
  provisions (trace (@Cluster (scripted exportFails) "kind" exampleOpts tt)) = [None] ∧
  ∃ cfg,
    Config (optionsAfter (@Cluster (scripted exportFails) "kind" exampleOpts tt))
    = Some cfg ∧
    executed (trace (@Cluster (scripted exportFails) "kind" exampleOpts tt))
    = (λ a, (a, None)) <$>
        actionsToRun
          (optionsAfter (@Cluster (scripted exportFails) "kind" exampleOpts tt)) cfg.
Proof.
  apply (@C7_export_failure (scripted exportFails) "kind" exampleOpts tt
           "export failed").
  vm_compute. constructor.
Defined.

(** ** The name rule *)

Lemma inClass_validName c :
  inClass [("a", "z"); ("A", "Z"); ("0", "9"); ("_", "_"); (".", "."); ("-", "-")]%char c
  = nameChar c.
Proof. by destruct c as [[] [] [] [] [] [] [] []]. Qed.


Lemma validNameRE_fullyMatches name :
  MatchString validNameRE name = true ↔ fullyMatches name.
Proof.
  unfold validNameRE, fullyMatches. rewrite MatchString_anchored_class.
  apply and_iff_compat_l. apply Forall_proper; [|done].
  intros c. by rewrite inClass_validName.
Qed.





(** ** Normalization *)

(** The loop over the indices changes every element once. *)
Lemma alter_range_lookup {A} (f : A → A) n k (l : list A) i :
  foldl (λ ns j, alter f j ns) l (seq k n) !! i
  = if decide (k ≤ i < k + n) then f <$> l !! i else l !! i.
Proof.
  revert k l. induction n as [|n IH]; intros k l; simpl.
  - rewrite decide_False by lia. done.
  - rewrite IH. destruct (decide (i = k)) as [->|Hne].
    + rewrite decide_False by lia. rewrite decide_True by lia.
      apply list_lookup_alter_eq.
    + rewrite list_lookup_alter_ne by done.
      repeat case_decide; done || lia.
Qed.

Lemma overrideImages_fmap img nodes :
  overrideImages img nodes = setImage img <$> nodes.
Proof.
  apply list_eq. intros i. unfold overrideImages.
  rewrite alter_range_lookup, list_lookup_fmap. case_decide as Hi; [done|].
  rewrite lookup_ge_None_2 by lia. done.
Qed.

(** What normalization leaves in [Config]. *)
Lemma fixupOptions_result `{Ext : Externals} opts w cfg0 :
  specification opts w = Some cfg0 →
  outcomeOf (fixupOptions opts w) = None ∧
  Config (optionsAfter (fixupOptions opts w))
  = Some (SetDefaultsCluster
            (if decide (NodeImage opts ≠ "")
             then setNodes cfg0 (setImage (NodeImage opts) <$> config.Nodes cfg0)
             else cfg0)).
Proof.
  unfold specification, fixupOptions, outcomeOf, optionsAfter. unfold_M.
  destruct (Config opts) as [cfg|].
  - intros [= ->]. by rewrite overrideImages_fmap.
  - destruct (encoding_Load "" w) as [[e|cfg] w1]; simpl; [done|].
    intros [= ->]. by rewrite overrideImages_fmap.
Qed.

Lemma exampleDefaults_fillsUnsetFields : fillsUnsetFields exampleDefaults.
Proof.
  intros cfg Hne. unfold exampleDefaults. cbn [config.Nodes].
  destruct (config.Nodes cfg) as [|n ns] eqn:Hnodes; [done|].
  apply Forall2_fmap_r, Forall_Forall2_diag, Forall_forall.
  intros m _ Himg. by rewrite decide_False.
Qed.



(** C10: with an empty image override, normalization leaves the
    specification to the default-value computation alone, the result being
    that computation applied to the specification as given or loaded, and
    leaves every other field of the options as it was; when no
    specification could be loaded the options are not changed at all. *)
Theorem C10_no_override `{Ext : Externals} opts w :
  NodeImage opts = "" →
  (∀ cfg0, specification opts w = Some cfg0 →
     outcomeOf (fixupOptions opts w) = None ∧
     Config (optionsAfter (fixupOptions opts w))
     = Some (SetDefaultsCluster cfg0)) ∧
  (specification opts w = None →
     outcomeOf (fixupOptions opts w) ≠ None ∧
     optionsAfter (fixupOptions opts w) = opts) ∧
  NodeImage (optionsAfter (fixupOptions opts w)) = NodeImage opts ∧
  Retain (optionsAfter (fixupOptions opts w)) = Retain opts ∧
  WaitForReady (optionsAfter (fixupOptions opts w)) = WaitForReady opts ∧
  KubeconfigPath (optionsAfter (fixupOptions opts w)) = KubeconfigPath opts ∧
  StopBeforeSettingUpKubernetes (optionsAfter (fixupOptions opts w))
  = StopBeforeSettingUpKubernetes opts ∧
  DisplayUsage (optionsAfter (fixupOptions opts w)) = DisplayUsage opts ∧
  DisplaySalutation (optionsAfter (fixupOptions opts w))
  = DisplaySalutation opts.
Proof.
  intros Himg. split.
  { intros cfg0 Hspec.
    destruct (fixupOptions_result opts w cfg0 Hspec) as [Herr Hcfg].
    rewrite decide_False in Hcfg by (by intros []). done. }
  unfold specification, fixupOptions, outcomeOf, optionsAfter. unfold_M.
  destruct (Config opts) as [cfg|]; [done|].
  by destruct (encoding_Load "" w) as [[e|cfg] w1].
Qed.

Lemma C10_witness :
  (∀ cfg0, @specification (scripted allGood) exampleOpts tt = Some cfg0 →
     outcomeOf (@fixupOptions (scripted allGood) exampleOpts tt) = None ∧
     Config (optionsAfter (@fixupOptions (scripted allGood) exampleOpts tt))
     = Some (exampleDefaults cfg0)) ∧
  (@specification (scripted allGood) exampleOpts tt = None →
     outcomeOf (@fixupOptions (scripted allGood) exampleOpts tt) ≠ None ∧
     optionsAfter (@fixupOptions (scripted allGood) exampleOpts tt) = exampleOpts) ∧
  NodeImage (optionsAfter (@fixupOptions (scripted allGood) exampleOpts tt)) = "" ∧
  Retain (optionsAfter (@fixupOptions (scripted allGood) exampleOpts tt)) = false ∧
  WaitForReady (optionsAfter (@fixupOptions (scripted allGood) exampleOpts tt)) = 0%Z ∧
  KubeconfigPath (optionsAfter (@fixupOptions (scripted allGood) exampleOpts tt)) = "" ∧
  StopBeforeSettingUpKubernetes
    (optionsAfter (@fixupOptions (scripted allGood) exampleOpts tt)) = false ∧
  DisplayUsage (optionsAfter (@fixupOptions (scripted allGood) exampleOpts tt)) = true ∧
  DisplaySalutation (optionsAfter (@fixupOptions (scripted allGood) exampleOpts tt))
  = true.
Proof.
  apply (@C10_no_override (scripted allGood) exampleOpts tt). reflexivity.
Defined.

(** ** Safety, and some runs *)

(** [opts.Config] is never nil where [Cluster] dereferences it. *)
Lemma Cluster_no_panic `{Ext : Externals} name opts w :
  outcomeOf (Cluster name opts w) ≠ Panic.
Proof. by destruct (Cluster_Run name opts w). Qed.

Example run_provision_fails :
  trace (@Cluster (scripted provisionFails) "kind" exampleOpts tt)
  = [CallLoad "" None; CallSetDefaultsCluster; CallMatchString "kind" true;
     CallValidate None; CallProvision "kind" (Some "provision failed");
     CallErrorf "provision failed"; CallDelete "kind" "" (Some "delete failed")].
Proof. reflexivity. Qed.

Example run_init_fails :
  trace (@Cluster (scripted initFails) "kind" exampleOpts tt)
  = [CallLoad "" None; CallSetDefaultsCluster; CallMatchString "kind" true;
     CallValidate None; CallProvision "kind" None;
     CallExecute loadbalancer None; CallExecute configaction None;
     CallExecute kubeadminit (Some "kubeadm init failed");
     CallDelete "kind" "" (Some "delete failed")].
Proof. reflexivity. Qed.

Example names_rejected :
  MatchString validNameRE <$> ["my cluster!"; ""; "a/b"; "kind"; "a.b-c_D9"]
  = [false; false; false; true; true].
Proof. reflexivity. Qed.

Example override_three_nodes :
  (λ cfg, config.Image <$> config.Nodes cfg) <$>
    Config (optionsAfter (@fixupOptions (scripted allGood) overrideOpts tt))
  = Some ["custom:tag"; "custom:tag"; "custom:tag"].
Proof. reflexivity. Qed.

(** A name that is refused is refused after the images were overwritten. *)
Example invalid_name_after_override :
  outcomeOf (@Cluster (scripted allGood) "a/b" overrideOpts tt)
  = Return (Some (invalidNameError "a/b")) ∧
  (λ cfg, config.Image <$> config.Nodes cfg) <$>
    Config (optionsAfter (@Cluster (scripted allGood) "a/b" overrideOpts tt))
  = Some ["custom:tag"; "custom:tag"; "custom:tag"].
Proof. split; reflexivity. Qed.

(** ** More on the runs of [Cluster] *)

Lemma validations_app l1 l2 : validations (l1 ++ l2) = validations l1 ++ validations l2.
Proof. apply omap_app. Qed.

Lemma warnings_app l1 l2 : warnings (l1 ++ l2) = warnings l1 ++ warnings l2.
Proof. apply omap_app. Qed.

Lemma loads_app l1 l2 : loads (l1 ++ l2) = loads l1 ++ loads l2.
Proof. apply omap_app. Qed.

Lemma nameChecks_app l1 l2 : nameChecks (l1 ++ l2) = nameChecks l1 ++ nameChecks l2.
Proof. apply omap_app. Qed.

Lemma validations_okCalls acts : validations (okCalls acts) = [].
Proof. unfold validations, okCalls. by induction acts. Qed.

Lemma warnings_okCalls acts : warnings (okCalls acts) = [].
Proof. unfold warnings, okCalls. by induction acts. Qed.

Lemma loads_okCalls acts : loads (okCalls acts) = [].
Proof. unfold loads, okCalls. by induction acts. Qed.

Lemma nameChecks_okCalls acts : nameChecks (okCalls acts) = [].
Proof. unfold nameChecks, okCalls. by induction acts. Qed.

Lemma errorLogs_app l1 l2 : errorLogs (l1 ++ l2) = errorLogs l1 ++ errorLogs l2.
Proof. apply omap_app. Qed.

Lemma errorLogs_okCalls acts : errorLogs (okCalls acts) = [].
Proof. unfold errorLogs, okCalls. by induction acts. Qed.

#[global] Hint Rewrite errorLogs_app errorLogs_okCalls : calls.

#[global] Hint Rewrite validations_app warnings_app loads_app nameChecks_app
  validations_okCalls warnings_okCalls loads_okCalls nameChecks_okCalls : calls.

(** X1: a call returns nil only when the name matched, the specification
    validated, the one provisioning succeeded, every action of the pipeline
    was executed and succeeded, the export, unless the call stops before
    setting up Kubernetes, succeeded, and nothing was deleted. *)
Theorem X1_success `{Ext : Externals} name opts w :
  outcomeOf (Cluster name opts w) = Return None →
  MatchString validNameRE name = true ∧
  CallValidate None ∈ trace (Cluster name opts w) ∧
  provisions (trace (Cluster name opts w)) = [None] ∧
  (∃ cfg, Config (optionsAfter (Cluster name opts w)) = Some cfg ∧
     executed (trace (Cluster name opts w))
     = (λ a, (a, None)) <$> actionsToRun (optionsAfter (Cluster name opts w)) cfg) ∧
  exports (trace (Cluster name opts w))
  = (if StopBeforeSettingUpKubernetes opts then [] else [None]) ∧
  deletions (trace (Cluster name opts w)) = [].
Proof.
  intros Hok.
  destruct (Cluster_Run name opts w)
    as [| | | | |opts' cfg Hfixed Hname Hstop| |opts' cfg Hfixed Hname Hstop];
    try discriminate.
  all: rewrite Hstop.
  all: split_and!; [done| |by calls_simpl| |by calls_simpl|by calls_simpl].
  all: try (exists cfg; split; [apply Hfixed|by calls_simpl]).
  all: unfold provisionedCalls; rewrite !elem_of_app; left; right; by left.
Qed.

(** X2: an error that a call returns is the invalid-name error for a name
    that does not match, or the very error that the load, the validation,
    the provisioning, an action or the export returned; the error of a
    load, a validation or an export is that of the last call made. *)
Theorem X2_error_origin `{Ext : Externals} name opts w e :
  outcomeOf (Cluster name opts w) = Return (Some e) →
  (e = invalidNameError name ∧ MatchString validNameRE name = false) ∨
  last (trace (Cluster name opts w)) = Some (CallLoad "" (Some e)) ∨
  last (trace (Cluster name opts w)) = Some (CallValidate (Some e)) ∨
  Some e ∈ provisions (trace (Cluster name opts w)) ∨
  (∃ a, (a, Some e) ∈ executed (trace (Cluster name opts w))) ∨
  last (trace (Cluster name opts w))
  = Some (CallExport name (KubeconfigPath opts) (Some e)).
Proof.
  intros Herr.
  destruct (Cluster_Run name opts w)
    as [e0 Hnil|opts' cfg Hfixed Hname|opts' cfg e0 Hfixed Hname
       |opts' cfg e0 r Hfixed Hname
       |opts' cfg k0 a0 e0 r Hfixed Hname Hk|opts' cfg Hfixed Hname _
       |opts' cfg e0 Hfixed Hname _|opts' cfg Hfixed Hname _];
    simplify_eq.
  - right; by left.
  - by left.
  - do 2 right; left. by rewrite last_snoc.
  - do 3 right; left. calls_simpl; by left.
  - do 4 right; left. exists a0. calls_simpl; rewrite ?elem_of_app; right; by left.
  - do 5 right. by rewrite !app_assoc, last_snoc.
Qed.


(** X3: when the validation of the specification fails the call returns
    that error and the validation is the last call: nothing is provisioned,
    executed, deleted or exported. *)
Theorem X3_invalid_config `{Ext : Externals} name opts w e :
  Some e ∈ validations (trace (Cluster name opts w)) →
  outcomeOf (Cluster name opts w) = Return (Some e) ∧
  last (trace (Cluster name opts w)) = Some (CallValidate (Some e)) ∧
  provisions (trace (Cluster name opts w)) = [] ∧
  executed (trace (Cluster name opts w)) = [] ∧
  deletions (trace (Cluster name opts w)) = [] ∧
  exports (trace (Cluster name opts w)) = [].
Proof.
  intros Hin.
  destruct (Cluster_Run name opts w)
    as [e0 Hnil|opts' cfg Hfixed Hname|opts' cfg e0 Hfixed Hname
       |opts' cfg e0 r Hfixed Hname
       |opts' cfg k0 a0 e0 r Hfixed Hname Hk|opts' cfg Hfixed Hname _
       |opts' cfg e0 Hfixed Hname _|opts' cfg Hfixed Hname _].
  3:{ rewrite last_snoc. calls_simpl; by elem_cases. }
  all: calls_simpl; by elem_cases.
Qed.

(** X4: a call deletes the cluster at most once and never with [Retain];
    a deletion is for the cluster of the call and [opts.KubeconfigPath], it
    is the last call made, and it follows a provisioning or an action that
    failed with the error that the call returns. *)
Theorem X4_deletion `{Ext : Externals} name opts w :
  length (deletions (trace (Cluster name opts w))) ≤ 1 ∧
  (Retain opts = true → deletions (trace (Cluster name opts w)) = []) ∧
  (∀ n p r, CallDelete n p r ∈ trace (Cluster name opts w) →
     n = name ∧ p = KubeconfigPath opts ∧
     last (trace (Cluster name opts w)) = Some (CallDelete n p r) ∧
     ∃ e, outcomeOf (Cluster name opts w) = Return (Some e) ∧
          (Some e ∈ provisions (trace (Cluster name opts w)) ∨
           ∃ a, (a, Some e) ∈ executed (trace (Cluster name opts w)))).
Proof.
  destruct (Cluster_Run name opts w)
    as [e0 Hnil|opts' cfg Hfixed Hname|opts' cfg e0 Hfixed Hname
       |opts' cfg e0 r Hfixed Hname
       |opts' cfg k0 a0 e0 r Hfixed Hname Hk|opts' cfg Hfixed Hname _
       |opts' cfg e0 Hfixed Hname _|opts' cfg Hfixed Hname _].
  all: split; [calls_simpl; lia|].
  all: split; [intros Hret; calls_simpl; done|].
  all: intros n p r' Hin.
  all: assert (Hdel : r' ∈ deletions
         ltac:(match goal with H : CallDelete _ _ _ ∈ ?t |- _ => exact t end)).
  all: try (apply list_elem_of_omap; eexists; split; [exact Hin|done]).
  all: try (exfalso; clear Hin; calls_simpl; by elem_cases).
  - unfold cleanupCalls in *. destruct (Retain opts);
      [exfalso; clear Hin; calls_simpl; by elem_cases|].
    assert (r' = r) as -> by (clear Hin; calls_simpl; by elem_cases).
    assert (n = name ∧ p = KubeconfigPath opts) as [-> ->].
    { unfold entryCalls, loadCalls, warnCalls in Hin.
      repeat case_match; simpl in Hin; elem_cases; done. }
    split_and!; [done|done| |].
    + by rewrite !app_assoc, last_snoc.
    + exists e0. split; [done|]. left. calls_simpl; by left.
  - unfold cleanupCalls in *. destruct (Retain opts);
      [exfalso; clear Hin; calls_simpl; by elem_cases|].
    assert (r' = r) as -> by (clear Hin; calls_simpl; by elem_cases).
    assert (n = name ∧ p = KubeconfigPath opts) as [-> ->].
    { clear Hdel. rewrite !elem_of_app in Hin.
      destruct Hin as [Hin|[Hin|[Hin|Hin]]].
      - unfold provisionedCalls, entryCalls, loadCalls, warnCalls in Hin.
        repeat case_match; simpl in Hin; elem_cases; done.
      - apply list_elem_of_fmap in Hin as (? & [=] & _).
      - by elem_cases.
      - by elem_cases. }
    split_and!; [done|done| |].
    + by rewrite !app_assoc, last_snoc.
    + exists e0. split; [done|]. right. exists a0.
      clear Hdel Hin. calls_simpl; rewrite elem_of_app; right; by left.
Qed.

(** X5: the warning about a long name is given exactly when the name was
    accepted and has more than [clusterNameMax] characters, once and with
    that name. *)
Theorem X5_long_name_warning `{Ext : Externals} name opts w :
  warnings (trace (Cluster name opts w))
  = if decide ((name, true) ∈ nameChecks (trace (Cluster name opts w)) ∧
               clusterNameMax < String.length name)
    then [name] else [].
Proof.
  destruct (Cluster_Run name opts w)
    as [e0 Hnil|opts' cfg Hfixed Hname|opts' cfg e0 Hfixed Hname
       |opts' cfg e0 r Hfixed Hname
       |opts' cfg k0 a0 e0 r Hfixed Hname Hk|opts' cfg Hfixed Hname _
       |opts' cfg e0 Hfixed Hname _|opts' cfg Hfixed Hname _].
  all: calls_simpl; try done.
  all: repeat match goal with H : decide _ = _ |- _ => clear H end.
  all: try (destruct_and?; by elem_cases).
  all: match goal with H : ¬ (_ ∧ _) |- _ => exfalso; apply H end.
  all: split; [by left|done].
Qed.

Lemma list_ascii_of_string_app s1 s2 :
  list_ascii_of_string (s1 +:+ s2)
  = list_ascii_of_string s1 ++ list_ascii_of_string s2.
Proof. induction s1 as [|c s1 IH]; simpl; by f_equal. Qed.

Lemma string_length_app s1 s2 :
  String.length (s1 +:+ s2) = String.length s1 + String.length s2.
Proof. induction s1 as [|c s1 IH]; simpl; by f_equal. Qed.

(** X6: a name that was accepted without the warning, with the suffix of
    the control plane container appended, has at most 64 characters and
    still matches the pattern. *)
Theorem X6_control_plane_name `{Ext : Externals} name opts w :
  (name, true) ∈ nameChecks (trace (Cluster name opts w)) →
  warnings (trace (Cluster name opts w)) = [] →
  String.length (name +:+ controlPlaneSuffix) ≤ hostNameMax ∧
  MatchString validNameRE (name +:+ controlPlaneSuffix) = true.
Proof.
  intros Hcheck Hwarn.
  assert (Hname : MatchString validNameRE name = true ∧
                  ¬ clusterNameMax < String.length name).
  { destruct (Cluster_Run name opts w); calls_simpl; by elem_cases. }
  destruct Hname as [Hname Hlen]. split.
  - rewrite string_length_app. unfold clusterNameMax, hostNameMax in *.
    simpl. lia.
  - apply validNameRE_fullyMatches.
    apply validNameRE_fullyMatches in Hname as [Hne Hall]. split.
    + by destruct name.
    + rewrite list_ascii_of_string_app. apply Forall_app. split; [done|].
      by repeat constructor.
Qed.

(** The actions that a run executed: none, all of them, or those up to
    one that failed. *)
Lemma Run_executed name opts out opts' tr :
  Run name opts out opts' tr →
  executed tr = [] ∨
  ∃ cfg, Config opts' = Some cfg ∧
    (executed tr = (λ a, (a, None)) <$> actionsToRun opts' cfg ∨
     ∃ k a e, actionsToRun opts' cfg !! k = Some a ∧
       executed tr
       = ((λ a, (a, None)) <$> take k (actionsToRun opts' cfg)) ++ [(a, Some e)]).
Proof.
  intros [e0 Hnil|opts1 cfg Hfixed Hname|opts1 cfg e0 Hfixed Hname
         |opts1 cfg e0 r Hfixed Hname
         |opts1 cfg k0 a0 e0 r Hfixed Hname Hk|opts1 cfg Hfixed Hname _
         |opts1 cfg e0 Hfixed Hname _|opts1 cfg Hfixed Hname _].
  1-4: left; by calls_simpl.
  all: right; exists cfg; split; [apply Hfixed|].
  2-4: left; by calls_simpl.
  right. exists k0, a0, e0. split; [done|]. by calls_simpl.
Qed.

(** X7: in every run the actions executed are a prefix of the assembled
    pipeline, in its order, and every one but the last has succeeded. *)
Theorem X7_actions_in_order `{Ext : Externals} name opts w :
  match Config (optionsAfter (Cluster name opts w)) with
  | None => executed (trace (Cluster name opts w)) = []
  | Some cfg =>
      (executed (trace (Cluster name opts w))).*1
        `prefix_of` actionsToRun (optionsAfter (Cluster name opts w)) cfg ∧
      ∀ i a r, executed (trace (Cluster name opts w)) !! i = Some (a, r) →
        S i < length (executed (trace (Cluster name opts w))) → r = None
  end.
Proof.
  destruct (Run_executed _ _ _ _ _ (Cluster_Run name opts w))
    as [->|(cfg & -> & [->|(k & a & e & Hk & ->)])].
  - case_match; [|done]. split; [apply prefix_nil|done].
  - split.
    + by rewrite <- list_fmap_compose, list_fmap_id.
    + intros i a r Hi _. rewrite list_lookup_fmap in Hi.
      destruct (_ !! i); by simplify_eq/=.
  - split.
    + rewrite fmap_app, <- list_fmap_compose, list_fmap_id. simpl.
      rewrite <- (take_S_r _ _ _ Hk). apply prefix_take.
    + intros i b r Hi Hlt. rewrite length_app, length_fmap in Hlt. simpl in Hlt.
      rewrite lookup_app_l in Hi by (rewrite length_fmap; lia).
      rewrite list_lookup_fmap in Hi. destruct (_ !! i); by simplify_eq/=.
Qed.

(** X8: a call provisions at most once, with its own name, and only after
    the name matched and the specification validated, the validation being
    the call just before; nothing is executed, deleted or exported before
    the provisioning. *)
Theorem X8_provision_after_checks `{Ext : Externals} name opts w r :
  r ∈ provisions (trace (Cluster name opts w)) →
  MatchString validNameRE name = true ∧
  provisions (trace (Cluster name opts w)) = [r] ∧
  validations (trace (Cluster name opts w)) = [None] ∧
  ∃ pre post,
    trace (Cluster name opts w) = pre ++ CallProvision name r :: post ∧
    last pre = Some (CallValidate None) ∧
    (name, true) ∈ nameChecks pre ∧
    executed pre = [] ∧ deletions pre = [] ∧ exports pre = [].
Proof.
  intros Hin.
  assert (Hentry : last (entryCalls name opts ++ [CallValidate None])
                   = Some (CallValidate None) ∧
            (name, true) ∈ nameChecks (entryCalls name opts ++ [CallValidate None]) ∧
            executed (entryCalls name opts ++ [CallValidate None]) = [] ∧
            deletions (entryCalls name opts ++ [CallValidate None]) = [] ∧
            exports (entryCalls name opts ++ [CallValidate None]) = []).
  { split; [by rewrite last_snoc|].
    calls_simpl; (split; [|done]); rewrite ?elem_of_cons; auto. }
  destruct (Cluster_Run name opts w)
    as [e0 Hnil|opts' cfg Hfixed Hname|opts' cfg e0 Hfixed Hname
       |opts' cfg e0 r0 Hfixed Hname
       |opts' cfg k0 a0 e0 r0 Hfixed Hname Hk|opts' cfg Hfixed Hname _
       |opts' cfg e0 Hfixed Hname _|opts' cfg Hfixed Hname _].
  1-3: exfalso; clear Hentry; calls_simpl; by elem_cases.
  1: assert (r = Some e0) as -> by (clear Hentry; calls_simpl; by elem_cases).
  2-5: assert (r = None) as -> by (clear Hentry; calls_simpl; by elem_cases).
  all: split_and!; [done|clear Hentry Hin; by calls_simpl
                   |clear Hentry Hin; by calls_simpl|].
  all: exists (entryCalls name opts ++ [CallValidate None]); eexists;
    (split; [unfold provisionedCalls; rewrite <- !app_assoc; reflexivity
            |by apply Hentry]).
Qed.

(** X9: the usage is logged only by a call that returns nil without
    stopping before the setup of Kubernetes, and then exactly with
    [DisplayUsage]; likewise the empty line and the salutation, exactly
    with [DisplaySalutation], after the usage. *)
Theorem X9_reports `{Ext : Externals} name opts w :
  reports (trace (Cluster name opts w))
  = match outcomeOf (Cluster name opts w), StopBeforeSettingUpKubernetes opts with
    | Return None, false =>
        (if DisplayUsage opts
         then [CallLogUsage name (KubeconfigPath opts)] else [])
        ++ (if DisplaySalutation opts
            then [CallInfo ""; CallLogSalutation] else [])
    | _, _ => []
    end.
Proof.
  destruct (Cluster_Run name opts w)
    as [e0 Hnil|opts' cfg Hfixed Hname|opts' cfg e0 Hfixed Hname
       |opts' cfg e0 r Hfixed Hname
       |opts' cfg k0 a0 e0 r Hfixed Hname Hk|opts' cfg Hfixed Hname Hstop
       |opts' cfg e0 Hfixed Hname Hstop|opts' cfg Hfixed Hname Hstop].
  all: try rewrite Hstop; by calls_simpl.
Qed.

(** X10: a call with a specification never loads one; a call without
    loads exactly once, the default path, as its first call. *)
Theorem X10_load_only_without_config `{Ext : Externals} name opts w :
  match Config opts with
  | Some _ => loads (trace (Cluster name opts w)) = []
  | None => ∃ r, loads (trace (Cluster name opts w)) = [("", r)] ∧
                 head (trace (Cluster name opts w)) = Some (CallLoad "" r)
  end.
Proof.
  destruct (Cluster_Run name opts w)
    as [e0 Hnil|opts' cfg Hfixed Hname|opts' cfg e0 Hfixed Hname
       |opts' cfg e0 r Hfixed Hname
       |opts' cfg k0 a0 e0 r Hfixed Hname Hk|opts' cfg Hfixed Hname Hstop
       |opts' cfg e0 Hfixed Hname Hstop|opts' cfg Hfixed Hname Hstop].
  { rewrite Hnil. by eexists. }
  all: destruct (Config opts) as [cfg0|] eqn:Hcfg.
  all: try (exists None); calls_simpl; by simplify_eq.
Qed.

(** X12: the loop of the override keeps the number of nodes and their
    roles and sets the image of every node. *)
Theorem X12_overrideImages img nodes :
  length (overrideImages img nodes) = length nodes ∧
  config.Role <$> overrideImages img nodes = config.Role <$> nodes ∧
  config.Image <$> overrideImages img nodes = replicate (length nodes) img.
Proof.
  rewrite overrideImages_fmap. split_and!.
  - apply length_fmap.
  - rewrite <- list_fmap_compose. by apply list_fmap_ext.
  - rewrite <- list_fmap_compose. induction nodes; simpl; by f_equal.
Qed.

(** X13: with a source that returns numbers below its argument,
    [logSalutation] never indexes out of range and logs one of the four
    messages. *)
Theorem X13_logSalutation (Intn : nat → nat) :
  (∀ n, 0 < n → Intn n < n) →
  ∃ s, logSalutation Intn = Some (CallInfo s) ∧ s ∈ salutations.
Proof.
  intros Hintn. unfold logSalutation.
  destruct (lookup_lt_is_Some_2 salutations (Intn (length salutations)))
    as [s Hs]; [apply Hintn; simpl; lia|].
  exists s. rewrite Hs. split; [done|].
  by eapply list_elem_of_lookup_2.
Qed.

(** ** Normalizing twice *)

Lemma fixupOptions_options `{Ext : Externals} opts w cfg0 :
  specification opts w = Some cfg0 →
  optionsAfter (fixupOptions opts w)
  = setConfig opts
      (SetDefaultsCluster
         (if decide (NodeImage opts ≠ "")
          then setNodes cfg0 (setImage (NodeImage opts) <$> config.Nodes cfg0)
          else cfg0)).
Proof.
  unfold specification, fixupOptions, optionsAfter. unfold_M.
  destruct (Config opts) as [cfg|].
  - intros [= ->]. by rewrite overrideImages_fmap.
  - destruct (encoding_Load "" w) as [[e|cfg] w1]; simpl; [done|].
    intros [= ->]. by rewrite overrideImages_fmap.
Qed.

Lemma setImage_same img nodes :
  Forall (λ n, config.Image n = img) nodes → setImage img <$> nodes = nodes.
Proof.
  induction 1 as [|[role im] nodes Him _ IH]; [done|].
  rewrite fmap_cons. f_equal; [|done]. simpl in Him. by subst im.
Qed.

(** X11: normalizing options that were normalized changes nothing and
    loads nothing, when the default-value computation fills unset fields
    only and is idempotent, and the override is empty or the specification
    has node entries. *)
Theorem X11_fixupOptions_twice `{Ext : Externals} opts w w2 cfg0 :
  fillsUnsetFields SetDefaultsCluster →
  (∀ cfg, SetDefaultsCluster (SetDefaultsCluster cfg) = SetDefaultsCluster cfg) →
  specification opts w = Some cfg0 →
  NodeImage opts = "" ∨ config.Nodes cfg0 ≠ [] →
  outcomeOf (fixupOptions (optionsAfter (fixupOptions opts w)) w2) = None ∧
  trace (fixupOptions (optionsAfter (fixupOptions opts w)) w2)
  = [CallSetDefaultsCluster] ∧
  optionsAfter (fixupOptions (optionsAfter (fixupOptions opts w)) w2)
  = optionsAfter (fixupOptions opts w).
Proof.
  intros Hfills Hidem Hspec Hcase.
  rewrite (fixupOptions_options opts w cfg0 Hspec).
  set (c1 := SetDefaultsCluster _).
  assert (Hc1 : (if decide (NodeImage opts ≠ "")
                 then setNodes c1 (overrideImages (NodeImage opts) (config.Nodes c1))
                 else c1) = c1).
  { case_decide as Himg; [|done]. destruct Hcase as [?|Hne]; [done|].
    rewrite overrideImages_fmap, setImage_same; [by destruct c1|].
    subst c1. rewrite ?decide_True by done.
    specialize (Hfills (setNodes cfg0 (setImage (NodeImage opts) <$> config.Nodes cfg0))).
    simpl in Hfills.
    specialize (Hfills ltac:(by destruct (config.Nodes cfg0))).
    apply Forall_lookup. intros i n' Hi.
    destruct (Forall2_lookup_r _ _ _ _ _ Hfills Hi) as (n & Hn & Hkeep).
    apply list_lookup_fmap_Some in Hn as (n0 & -> & _).
    by apply Hkeep. }
  unfold fixupOptions, outcomeOf, optionsAfter, trace. unfold_M. simpl.
  rewrite Hc1. subst c1. by rewrite Hidem.
Qed.

(** ** Further example runs *)

Lemma exampleDefaults_idempotent cfg :
  exampleDefaults (exampleDefaults cfg) = exampleDefaults cfg.
Proof.
  unfold exampleDefaults. cbn [config.Nodes config.Networking]. f_equal.
  set (fill := λ n : config.Node, if decide (config.Image n = "") then _ else n).
  assert (Hfill : ∀ ns : list config.Node, fill <$> (fill <$> ns) = fill <$> ns).
  { intros ns. rewrite <- list_fmap_compose. apply list_fmap_ext.
    intros _ n _. unfold fill, compose. by repeat (case_decide; simpl in *). }
  destruct (config.Nodes cfg) as [|n ns]; simpl.
  - reflexivity.
  - apply (Hfill (n :: ns)).
Qed.

Lemma X1_witness :
  MatchString validNameRE "kind" = true ∧
  CallValidate None ∈ trace (@Cluster (scripted allGood) "kind" exampleOpts tt) ∧
  provisions (trace (@Cluster (scripted allGood) "kind" exampleOpts tt)) = [None] ∧
  (∃ cfg,
     Config (optionsAfter (@Cluster (scripted allGood) "kind" exampleOpts tt))
     = Some cfg ∧
     executed (trace (@Cluster (scripted allGood) "kind" exampleOpts tt))
     = (λ a, (a, None)) <$>
         actionsToRun
           (optionsAfter (@Cluster (scripted allGood) "kind" exampleOpts tt)) cfg) ∧
  exports (trace (@Cluster (scripted allGood) "kind" exampleOpts tt))
  = (if StopBeforeSettingUpKubernetes exampleOpts then [] else [None]) ∧
  deletions (trace (@Cluster (scripted allGood) "kind" exampleOpts tt)) = [].
Proof.
  apply (@X1_success (scripted allGood) "kind" exampleOpts tt). reflexivity.
Defined.

Lemma X2_witness :
  ("provision failed" = invalidNameError "kind" ∧
   MatchString validNameRE "kind" = false) ∨
  last (trace (@Cluster (scripted provisionFails) "kind" exampleOpts tt))
  = Some (CallLoad "" (Some "provision failed")) ∨
  last (trace (@Cluster (scripted provisionFails) "kind" exampleOpts tt))
  = Some (CallValidate (Some "provision failed")) ∨
  Some "provision failed"
    ∈ provisions (trace (@Cluster (scripted provisionFails) "kind" exampleOpts tt)) ∨
  (∃ a, (a, Some "provision failed")
          ∈ executed (trace (@Cluster (scripted provisionFails) "kind" exampleOpts tt))) ∨
  last (trace (@Cluster (scripted provisionFails) "kind" exampleOpts tt))
  = Some (CallExport "kind" (KubeconfigPath exampleOpts) (Some "provision failed")).
Proof.
  apply (@X2_error_origin (scripted provisionFails) "kind" exampleOpts tt).
  reflexivity.
Defined.

Lemma X3_witness :
  outcomeOf (@Cluster (scripted validateFails) "kind" exampleOpts tt)
  = Return (Some "invalid configuration") ∧
  last (trace (@Cluster (scripted validateFails) "kind" exampleOpts tt))
  = Some (CallValidate (Some "invalid configuration")) ∧
  provisions (trace (@Cluster (scripted validateFails) "kind" exampleOpts tt)) = [] ∧
  executed (trace (@Cluster (scripted validateFails) "kind" exampleOpts tt)) = [] ∧
  deletions (trace (@Cluster (scripted validateFails) "kind" exampleOpts tt)) = [] ∧
  exports (trace (@Cluster (scripted validateFails) "kind" exampleOpts tt)) = [].
Proof.
  apply (@X3_invalid_config (scripted validateFails) "kind" exampleOpts tt).
  vm_compute. constructor.
Defined.

Lemma X6_witness :
  String.length ("kind" +:+ controlPlaneSuffix) ≤ hostNameMax ∧
  MatchString validNameRE ("kind" +:+ controlPlaneSuffix) = true.
Proof.
  apply (@X6_control_plane_name (scripted allGood) "kind" exampleOpts tt).
  - vm_compute. constructor.
  - reflexivity.
Defined.

Lemma X8_witness :
  MatchString validNameRE "kind" = true ∧
  provisions (trace (@Cluster (scripted allGood) "kind" exampleOpts tt)) = [None] ∧
  validations (trace (@Cluster (scripted allGood) "kind" exampleOpts tt)) = [None] ∧
  ∃ pre post,
    trace (@Cluster (scripted allGood) "kind" exampleOpts tt)
    = pre ++ CallProvision "kind" None :: post ∧
    last pre = Some (CallValidate None) ∧
    ("kind", true) ∈ nameChecks pre ∧
    executed pre = [] ∧ deletions pre = [] ∧ exports pre = [].
Proof.
  apply (@X8_provision_after_checks (scripted allGood) "kind" exampleOpts tt None).
  vm_compute. constructor.
Defined.

Lemma X11_witness :
  outcomeOf (@fixupOptions (scripted allGood)
               (optionsAfter (@fixupOptions (scripted allGood) overrideOpts tt)) tt)
  = None ∧
  trace (@fixupOptions (scripted allGood)
           (optionsAfter (@fixupOptions (scripted allGood) overrideOpts tt)) tt)
  = [CallSetDefaultsCluster] ∧
  optionsAfter (@fixupOptions (scripted allGood)
                  (optionsAfter (@fixupOptions (scripted allGood) overrideOpts tt)) tt)
  = optionsAfter (@fixupOptions (scripted allGood) overrideOpts tt).
Proof.
  apply (@X11_fixupOptions_twice (scripted allGood) overrideOpts tt tt exampleSpec).
  - apply exampleDefaults_fillsUnsetFields.
  - apply exampleDefaults_idempotent.
  - reflexivity.
  - right. discriminate.
Defined.

Lemma X13_witness :
  ∃ s, logSalutation (λ n, n - 1) = Some (CallInfo s) ∧ s ∈ salutations.
Proof. apply X13_logSalutation. intros n Hn. lia. Defined.

(** X14: the errors that a call logs with [Errorf] are the failures of
    the provisioning, and only those: a failure of the validation, of an
    action or of the export is returned without being logged. *)
Theorem X14_error_log `{Ext : Externals} name opts w :
  errorLogs (trace (Cluster name opts w))
  = omap id (provisions (trace (Cluster name opts w))).
Proof. destruct (Cluster_Run name opts w); by calls_simpl. Qed.
